(** * VelocityTrader: the MQL5 mock header used for C++ linting

    Source: [Tools/mql5_linting/mql5_mock.h].

    The header is a set of type aliases, object-like macros, integer
    constants and inline stub functions.  Two views of it are embedded:

    - [Module Stubs]: the stub functions and the constants as the values and
      functions a C++ program that includes the header gets;
    - [Module Header]: the header as the sequence of preprocessor lines it
      is made of, run by a small model of the preprocessor (conditional
      inclusion, object-like macros), for the properties that are about
      the text of the header: the include guard, the keyword macros and
      the type aliases. *)

From Stdlib Require Import ZArith Floats.
From Stdlib Require DecimalString.
From stdpp Require Import base strings list gmap.

Local Open Scope Z_scope.

(** ** The stub functions and the constants *)

Module Stubs.

(** [#define PERIOD_CURRENT 0] and the three that follow: each name stands
    for the integer literal on its line, a C++ [int].  An [int] is a [Z]
    here; the stubs never compute with their arguments, so what is proved
    for every [Z] holds for the integers an [int] can hold. *)
Definition PERIOD_CURRENT : Z := 0.
Definition PERIOD_M1 : Z := 1.
Definition OP_BUY : Z := 0.
Definition OP_SELL : Z := 1.

(** The two groups of constants, as the header's comment and their prefixes
    group them: timeframe periods and order operations. *)
Definition periods : list Z := [PERIOD_CURRENT; PERIOD_M1].
Definition operations : list Z := [OP_BUY; OP_SELL].
Definition constants : list Z := periods ++ operations.

Section WithWorld.

(** Whatever state the including program has.  The header declares no
    variable, so the stubs are written against any state at all. *)
Variable World : Type.

(** A C++ function as a state transformer: result and state after. *)
Definition M (A : Type) : Type := World → A * World.

Definition ret {A} (a : A) : M A := λ w, (a, w).
Definition bind {A B} (m : M A) (k : A → M B) : M B :=
  λ w, let '(a, w') := m w in k a w'.

Notation "x <- m ;; k" := (bind m (λ x, k))
  (at level 100, m at next level, right associativity).

(** [inline double SymbolInfoDouble(const std::string& symbol, int prop_id)
    { return 0.0; }] *)
Definition SymbolInfoDouble (symbol : string) (prop_id : Z) : M float :=
  ret 0%float.

(** [inline bool OrderSend(const std::string& symbol, int cmd, double volume,
    double price, int slippage, double stoploss, double takeprofit)
    { return true; }] *)
Definition OrderSend (symbol : string) (cmd : Z) (volume price : float)
    (slippage : Z) (stoploss takeprofit : float) : M bool :=
  ret true.

(** [inline void Print(const std::string& msg) {}] *)
Definition Print (msg : string) : M unit := ret tt.

(** [inline int GetLastError() { return 0; }] *)
Definition GetLastError : M Z := ret 0.

(** [inline int OnInit() { return 0; }] *)
Definition OnInit : M Z := ret 0.

(** [inline void OnDeinit(const int reason) {}] *)
Definition OnDeinit (reason : Z) : M unit := ret tt.

(** [inline void OnTick() {}] *)
Definition OnTick : M unit := ret tt.

(** *** Calls and call histories *)

(** The seven functions of the header. *)
Inductive stub : Type :=
  | FSymbolInfoDouble | FOrderSend | FPrint | FGetLastError
  | FOnInit | FOnDeinit | FOnTick.

(** A call: a function of the header with its arguments. *)
Inductive call : Type :=
  | CallSymbolInfoDouble (symbol : string) (prop_id : Z)
  | CallOrderSend (symbol : string) (cmd : Z) (volume price : float)
      (slippage : Z) (stoploss takeprofit : float)
  | CallPrint (msg : string)
  | CallGetLastError
  | CallOnInit
  | CallOnDeinit (reason : Z)
  | CallOnTick.

Definition callee (c : call) : stub :=
  match c with
  | CallSymbolInfoDouble _ _ => FSymbolInfoDouble
  | CallOrderSend _ _ _ _ _ _ _ => FOrderSend
  | CallPrint _ => FPrint
  | CallGetLastError => FGetLastError
  | CallOnInit => FOnInit
  | CallOnDeinit _ => FOnDeinit
  | CallOnTick => FOnTick
  end.

(** What a call hands back: a [double], a [bool], an [int], or nothing. *)
Inductive value : Type :=
  | VDouble (d : float)
  | VBool (b : bool)
  | VInt (z : Z)
  | VVoid.

Definition exec (c : call) : M value :=
  match c with
  | CallSymbolInfoDouble symbol prop_id =>
      d <- SymbolInfoDouble symbol prop_id ;; ret (VDouble d)
  | CallOrderSend symbol cmd volume price slippage stoploss takeprofit =>
      b <- OrderSend symbol cmd volume price slippage stoploss takeprofit ;;
      ret (VBool b)
  | CallPrint msg => _ <- Print msg ;; ret VVoid
  | CallGetLastError => z <- GetLastError ;; ret (VInt z)
  | CallOnInit => z <- OnInit ;; ret (VInt z)
  | CallOnDeinit reason => _ <- OnDeinit reason ;; ret VVoid
  | CallOnTick => _ <- OnTick ;; ret VVoid
  end.

(** The [return] statement of each function's body, as a value; the
    functions with an empty body return nothing. *)
Definition result_of (f : stub) : value :=
  match f with
  | FSymbolInfoDouble => VDouble 0%float
  | FOrderSend => VBool true
  | FPrint | FOnDeinit | FOnTick => VVoid
  | FGetLastError | FOnInit => VInt 0
  end.

(** A history of calls, run in order; the results are collected. *)
Fixpoint exec_all (cs : list call) : M (list value) :=
  match cs with
  | [] => ret []
  | c :: cs' => v <- exec c ;; vs <- exec_all cs' ;; ret (v :: vs)
  end.

End WithWorld.

Arguments ret {World A} a w.
Arguments bind {World A B} m k w.
Arguments SymbolInfoDouble {World} symbol prop_id w.
Arguments OrderSend {World} symbol cmd volume price slippage stoploss
  takeprofit w.
Arguments Print {World} msg w.
Arguments GetLastError {World} w.
Arguments OnInit {World} w.
Arguments OnDeinit {World} reason w.
Arguments OnTick {World} w.
Arguments exec {World} c w.
Arguments exec_all {World} cs w.

Notation "x <- m ;; k" := (bind m (λ x, k))
  (at level 100, m at next level, right associativity).

End Stubs.

(** ** The header as preprocessor lines *)

Module Header.

(** A preprocessing token (an identifier, a literal or a punctuator),
    spelled as in the file. *)
Abbreviation token := string.

(** The lines the header is made of.  Comments and blank lines are gone
    before directives are run, so they have no constructor. *)
Inductive line : Type :=
  | Ifndef (name : token)
  | Define (name : token) (body : list token)
  | Include (header : string)
  | Endif
  | Text (toks : list token).

(** [mql5_mock.h], lines 7 to 40. *)
Definition mql5_mock_h : list line :=
  [ Ifndef "MQL5_MOCK_H";
    Define "MQL5_MOCK_H" [];
    Include "cstdint";
    Include "string";
    Text ["typedef"; "int64_t"; "datetime"; ";"];
    Text ["typedef"; "uint32_t"; "color"; ";"];
    Define "input" [];
    Define "sinput" ["static"];
    Define "extern" [];
    Define "PERIOD_CURRENT" ["0"];
    Define "PERIOD_M1" ["1"];
    Define "OP_BUY" ["0"];
    Define "OP_SELL" ["1"];
    Text ["inline"; "double"; "SymbolInfoDouble"; "("; "const"; "std"; "::";
          "string"; "&"; "symbol"; ","; "int"; "prop_id"; ")";
          "{"; "return"; "0.0"; ";"; "}"];
    Text ["inline"; "bool"; "OrderSend"; "("; "const"; "std"; "::"; "string";
          "&"; "symbol"; ","; "int"; "cmd"; ","; "double"; "volume"; ",";
          "double"; "price"; ","];
    Text ["int"; "slippage"; ","; "double"; "stoploss"; ","; "double";
          "takeprofit"; ")"; "{"; "return"; "true"; ";"; "}"];
    Text ["inline"; "void"; "Print"; "("; "const"; "std"; "::"; "string"; "&";
          "msg"; ")"; "{"; "}"];
    Text ["inline"; "int"; "GetLastError"; "("; ")";
          "{"; "return"; "0"; ";"; "}"];
    Text ["inline"; "int"; "OnInit"; "("; ")"; "{"; "return"; "0"; ";"; "}"];
    Text ["inline"; "void"; "OnDeinit"; "("; "const"; "int"; "reason"; ")";
          "{"; "}"];
    Text ["inline"; "void"; "OnTick"; "("; ")"; "{"; "}"];
    Endif ].

(** *** Object-like macro replacement *)

(** One token: a name that has a definition is replaced by its replacement
    list, which is scanned again with that name hidden (a macro is not
    replaced inside its own replacement).  Each level of rescanning hides
    one more name, so [fuel] need not exceed the number of macros by more
    than one. *)
Fixpoint expand_tok (fuel : nat) (ms : gmap string (list token))
    (hide : gset string) (t : token) : list token :=
  match fuel with
  | O => [t]
  | S fuel' =>
      if decide (t ∈ hide) then [t]
      else match ms !! t with
           | None => [t]
           | Some body => body ≫= expand_tok fuel' ms ({[t]} ∪ hide)
           end
  end.

Definition expand (ms : gmap string (list token)) (toks : list token)
    : list token :=
  toks ≫= expand_tok (S (size ms)) ms ∅.

(** *** Running the lines *)

(** What the preprocessor hands to the compiler: the text lines that were
    kept, macros replaced, and the system headers that were pulled in. *)
Inductive item : Type :=
  | SysHeader (header : string)
  | Line (toks : list token).

Inductive diag : Type :=
  | Redefined (name : token)
  | StrayEndif.

#[global] Instance item_eq_dec : EqDecision item.
Proof. solve_decision. Defined.

Record pp_state : Type := PP {
  macros : gmap string (list token);
  (** the open conditionals, innermost first: is its group being kept *)
  conds : list bool;
  output : list item;
  diags : list diag
}.

Definition pp_init : pp_state :=
  {| macros := ∅; conds := []; output := []; diags := [] |}.

Definition active (st : pp_state) : bool :=
  match conds st with
  | [] => true
  | b :: _ => b
  end.

Definition emit (it : item) (st : pp_state) : pp_state :=
  {| macros := macros st; conds := conds st;
     output := output st ++ [it]; diags := diags st |}.

Definition define (name : token) (body : list token) (st : pp_state)
    : pp_state :=
  {| macros := <[name := body]> (macros st);
     conds := conds st;
     output := output st;
     diags := match macros st !! name with
              | Some old =>
                  if decide (old = body) then diags st
                  else diags st ++ [Redefined name]
              | None => diags st
              end |}.

(** One line.  A system header is handed on by name: its lines are not
    part of the repository, and what it defines is not looked into. *)
Definition step (l : line) (st : pp_state) : pp_state :=
  match l with
  | Ifndef name =>
      {| macros := macros st;
         conds := (active st && bool_decide (macros st !! name = None))
                  :: conds st;
         output := output st; diags := diags st |}
  | Endif =>
      match conds st with
      | [] => {| macros := macros st; conds := []; output := output st;
                 diags := diags st ++ [StrayEndif] |}
      | _ :: cs => {| macros := macros st; conds := cs;
                      output := output st; diags := diags st |}
      end
  | Define name body => if active st then define name body st else st
  | Include header => if active st then emit (SysHeader header) st else st
  | Text toks =>
      if active st then emit (Line (expand (macros st) toks)) st else st
  end.

Definition preprocess (ls : list line) (st : pp_state) : pp_state :=
  foldl (λ s l, step l s) st ls.

(** [#include "mql5_mock.h"] at some point of a translation unit. *)
Definition include_header (st : pp_state) : pp_state :=
  preprocess mql5_mock_h st.

(** The same, [n] times in a row. *)
Definition include_times (n : nat) (st : pp_state) : pp_state :=
  Nat.iter n include_header st.

(** The macros in force after the header, in a translation unit that
    starts with it. *)
Definition header_macros : gmap string (list token) :=
  macros (include_header pp_init).

(** The three of them that lines 18 to 20 define. *)
Definition storage_keywords : list token := ["input"; "sinput"; "extern"].

Definition storage_macros : gmap string (list token) :=
  filter (λ kv, kv.1 ∈ storage_keywords) header_macros.

(** The specification's wording of what the keyword macros do to a program
    text:
    [input] and [extern] are removed, [sinput] becomes [static], every
    other token stays. *)
Definition neutralize_tok (t : token) : list token :=
  if decide (t = "input") then []
  else if decide (t = "extern") then []
  else if decide (t = "sinput") then ["static"]
  else [t].

Definition neutralize (toks : list token) : list token :=
  toks ≫= neutralize_tok.

(** *** Include guards *)

(** A file under an include guard [g]: [#ifndef g], [#define g], the body,
    [#endif]. *)
Definition guarded (g : token) (body : list line) : list line :=
  Ifndef g :: Define g [] :: body ++ [Endif].

(** The lines between the first two and the last. *)
Definition guard_body (ls : list line) : list line :=
  drop 2 (take (length ls - 1) ls).

Definition is_conditional (l : line) : bool :=
  match l with
  | Ifndef _ | Endif => true
  | _ => false
  end.


(** *** Type aliases *)

(** [typedef T name ;] declares [name] as an alias of [T]. *)
Definition typedef_of (it : item) : option (string * string) :=
  match it with
  | Line [kw; ty; name; semi] =>
      if decide (kw = "typedef" ∧ semi = ";") then Some (name, ty) else None
  | _ => None
  end.

Definition typedefs (out : list item) : list (string * string) :=
  omap typedef_of out.

(** An integer type: signedness and width in bits. *)
Record int_type : Type := IntT { is_signed : bool; bits : Z }.

(** The exact-width integer types of [<cstdint>], which the header
    includes on line 10. *)
Definition cstdint : list (string * int_type) :=
  [ ("int8_t", IntT true 8); ("int16_t", IntT true 16);
    ("int32_t", IntT true 32); ("int64_t", IntT true 64);
    ("uint8_t", IntT false 8); ("uint16_t", IntT false 16);
    ("uint32_t", IntT false 32); ("uint64_t", IntT false 64) ].

(** The integer type a name of the header stands for, if it is one of
    its aliases. *)
Definition resolve (name : string) : option int_type :=
  ty ← (list_to_map (typedefs (output (include_header pp_init)))
          : gmap string string) !! name;
  (list_to_map cstdint : gmap string int_type) !! ty.

(** The integer a macro of the header stands for, when its replacement
    list is one decimal literal. *)
Definition macro_value (name : token) : option Z :=
  match header_macros !! name with
  | Some [lit] => Z.of_uint <$> DecimalString.NilZero.uint_of_string lit
  | _ => None
  end.

(** *** What a list of lines defines, includes and says *)

#[global] Instance line_eq_dec : EqDecision line.
Proof. solve_decision. Defined.

(** The macro definitions among the lines, in order. *)
Definition define_of (l : line) : option (token * list token) :=
  match l with
  | Define name body => Some (name, body)
  | _ => None
  end.

Definition defines (ls : list line) : list (token * list token) :=
  omap define_of ls.

(** A macro table after the definitions [ds] were made in order. *)
Definition install (ds : list (token * list token))
    (ms : gmap string (list token)) : gmap string (list token) :=
  foldl (λ m d, <[d.1 := d.2]> m) ms ds.

(** The inclusions and the text lines, in order and as they are written. *)
Definition item_of (l : line) : option item :=
  match l with
  | Include header => Some (SysHeader header)
  | Text toks => Some (Line toks)
  | _ => None
  end.

Definition items (ls : list line) : list item := omap item_of ls.

(** Every token of the text lines. *)
Definition text_tokens (ls : list line) : list token :=
  ls ≫= λ l, match l with Text toks => toks | _ => [] end.



(** Each line with the macro table it is met with. *)
Fixpoint macros_before (ls : list line) (st : pp_state)
    : list (line * gmap string (list token)) :=
  match ls with
  | [] => []
  | l :: ls' => (l, macros st) :: macros_before ls' (step l st)
  end.

End Header.

(** * Properties of the stub functions and the constants *)

Section StubFacts.

Import Stubs.

Context {World : Type}.
Implicit Types (w : World) (c : call) (history : list call).

(** No call touches the state of the program. *)
Lemma exec_state c w : (exec c w).2 = w.
Proof. by destruct c. Qed.

Lemma exec_all_state history w : (exec_all history w).2 = w.
Proof.
  revert w. induction history as [|c cs IH]; intros w; [done|].
  cbn [exec_all]. unfold bind.
  pose proof (exec_state c w) as Hc. destruct (exec c w) as [v w1].
  pose proof (IH w1) as Hcs. destruct (exec_all cs w1) as [vs w2].
  simpl in *. congruence.
Qed.

(** What a call returns is decided by the function called alone. *)
Lemma exec_result c w : (exec c w).1 = result_of (callee c).
Proof. by destruct c. Qed.

(** C1: [OrderSend] returns [true] whatever its seven arguments are, and so
    does the call [OrderSend("EURUSD", OP_BUY, 1.0, price, 3, sl, tp)] for
    every [price], [sl] and [tp]. *)
Theorem OrderSend_always_true :
  (∀ symbol cmd volume price slippage stoploss takeprofit w,
     (OrderSend symbol cmd volume price slippage stoploss takeprofit w).1
     = true) ∧
  (∀ price sl tp w,
     (OrderSend "EURUSD" OP_BUY 1%float price 3 sl tp w).1 = true).
Proof. split; reflexivity. Qed.

(** C2: [SymbolInfoDouble] returns the double [0.0], positive zero, for
    every symbol and every property id. *)
Theorem SymbolInfoDouble_always_zero symbol prop_id w :
  (SymbolInfoDouble symbol prop_id w).1 = 0%float.
Proof. reflexivity. Qed.

(** C5: [GetLastError] returns 0 after any history of calls to the stubs,
    whatever their arguments were. *)
Theorem GetLastError_always_zero history w :
  ((_ <- exec_all history ;; GetLastError) w).1 = 0.
Proof.
  unfold bind. destruct (exec_all history w) as [vs w']. reflexivity.
Qed.

(** C6: two calls to the same stub return the same value, whatever the
    arguments of each, the state each starts in and the calls made before
    each; and a call after any history leaves the state as it was before
    the history. *)
Theorem stubs_pure_and_deterministic history1 history2 c1 c2 w1 w2 :
  callee c1 = callee c2 →
  (exec c1 (exec_all history1 w1).2).1 = (exec c2 (exec_all history2 w2).2).1
  ∧ (exec c1 (exec_all history1 w1).2).2 = w1
  ∧ (exec c2 (exec_all history2 w2).2).2 = w2.
Proof.
  intros Hsame. rewrite !exec_result, !exec_state, !exec_all_state, Hsame.
  done.
Qed.

(** C7: [OnInit] returns 0; [Print], [OnDeinit] and [OnTick] return nothing;
    none of the four changes the state. *)
Theorem handlers_trivial msg reason w :
  OnInit w = (0, w) ∧ Print msg w = ((), w)
  ∧ OnDeinit reason w = ((), w) ∧ OnTick w = ((), w).
Proof. repeat split. Qed.

End StubFacts.

(** Two [OrderSend] calls that differ in every argument, one after a
    history and one first, from two different states. *)
Lemma stubs_pure_and_deterministic_witness :
  let c1 := Stubs.CallOrderSend "EURUSD" Stubs.OP_BUY 1%float 2%float 3
              0%float 4%float in
  let c2 := Stubs.CallOrderSend "GBPUSD" Stubs.OP_SELL 5%float 6%float 0
              7%float 8%float in
  let h1 := [Stubs.CallPrint "tick"; Stubs.CallOnTick] in
  Stubs.callee c1 = Stubs.callee c2
  ∧ (Stubs.exec c1 (Stubs.exec_all h1 7%nat).2).1
    = (Stubs.exec c2 (Stubs.exec_all [] 9%nat).2).1
  ∧ (Stubs.exec c1 (Stubs.exec_all h1 7%nat).2).2 = 7%nat
  ∧ (Stubs.exec c2 (Stubs.exec_all [] 9%nat).2).2 = 9%nat.
Proof.
  intros c1 c2 h1. split; [reflexivity|].
  apply (stubs_pure_and_deterministic h1 [] c1 c2 7%nat 9%nat). reflexivity.
Defined.

Section ConstantFacts.

Import Stubs.

Lemma constants_alias : ¬ NoDup constants.
Proof.
  unfold constants, periods, operations. cbn [app].
  rewrite NoDup_cons. intros [Hnotin _]. apply Hnotin.
  unfold PERIOD_CURRENT, OP_BUY. set_solver.
Qed.

(** C3, as stated: the four constants are pairwise distinct.  It fails:
    [PERIOD_CURRENT] and [OP_BUY] are both 0. *)
Lemma constants_not_pairwise_distinct :
  ¬ (NoDup constants) ∧ PERIOD_CURRENT = OP_BUY.
Proof. split; [apply constants_alias | reflexivity]. Qed.

(** C3, amended: the constants of one group are pairwise distinct, the
    periods among themselves and the order operations among themselves. *)
Theorem constants_distinct_in_group : NoDup periods ∧ NoDup operations.
Proof.
  unfold periods, operations, PERIOD_CURRENT, PERIOD_M1, OP_BUY, OP_SELL.
  split; apply NoDup_cons;
    (split; [rewrite list_elem_of_singleton; discriminate
            | apply NoDup_singleton]).
Qed.

(** C4: across the groups the values coincide, [PERIOD_CURRENT] and [OP_BUY]
    are 0 and [PERIOD_M1] and [OP_SELL] are 1; the values differ inside
    each group, and the four together are not pairwise distinct. *)
Theorem constants_coincide_across_groups :
  (PERIOD_CURRENT = 0 ∧ OP_BUY = 0) ∧ (PERIOD_M1 = 1 ∧ OP_SELL = 1)
  ∧ PERIOD_CURRENT ≠ PERIOD_M1 ∧ OP_BUY ≠ OP_SELL
  ∧ ¬ NoDup constants.
Proof.
  repeat split; try reflexivity; try discriminate. apply constants_alias.
Qed.

End ConstantFacts.

(** * Properties of the header text *)

Section PreprocessorFacts.

Import Header.

Implicit Types (st : pp_state) (l : line) (ls body : list line)
  (g t : token) (toks : list token) (ms : gmap string (list token)).

Lemma preprocess_app ls1 ls2 st :
  preprocess (ls1 ++ ls2) st = preprocess ls2 (preprocess ls1 st).
Proof. apply foldl_app. Qed.

Lemma preprocess_cons l ls st :
  preprocess (l :: ls) st = preprocess ls (step l st).
Proof. reflexivity. Qed.

(** A line that is not a conditional does nothing in a group that is
    being skipped. *)
Lemma step_skipped l st :
  active st = false → is_conditional l = false → step l st = st.
Proof. intros Hact Hl. destruct l; try done; simpl; by rewrite Hact. Qed.

Lemma preprocess_skipped body st :
  active st = false →
  Forall (λ l, is_conditional l = false) body → preprocess body st = st.
Proof.
  intros Hact Hflat. induction Hflat as [|l ls Hl _ IH]; [done|].
  by rewrite preprocess_cons, step_skipped.
Qed.

(** Outside conditionals of its own, a line leaves the conditional stack
    alone. *)
Lemma step_conds l st :
  is_conditional l = false → conds (step l st) = conds st.
Proof. intros Hl. destruct l; try done; simpl; by destruct (active st). Qed.

Lemma preprocess_conds body st :
  Forall (λ l, is_conditional l = false) body →
  conds (preprocess body st) = conds st.
Proof.
  intros Hflat. revert st.
  induction Hflat as [|l ls Hl _ IH]; intros st; [done|].
  by rewrite preprocess_cons, IH, step_conds.
Qed.

(** No line removes a definition: the header language has no [#undef]. *)
Lemma step_defined l st g :
  is_Some (macros st !! g) → is_Some (macros (step l st) !! g).
Proof.
  intros Hg. destruct l as [n|n b|h| |toks]; simpl; try done.
  - destruct (active st); [|done]. simpl.
    destruct (decide (n = g)) as [->|Hne].
    + rewrite lookup_insert_eq. eauto.
    + by rewrite lookup_insert_ne.
  - by destruct (active st).
  - by destruct (conds st).
  - by destruct (active st).
Qed.

Lemma preprocess_defined ls st g :
  is_Some (macros st !! g) → is_Some (macros (preprocess ls st) !! g).
Proof.
  revert st. induction ls as [|l ls IH]; intros st Hg; [done|].
  rewrite preprocess_cons. by apply IH, step_defined.
Qed.

(** A guarded file whose guard is defined, or that is met inside a skipped
    group, leaves no trace. *)
Lemma guarded_skipped g body st :
  Forall (λ l, is_conditional l = false) body →
  active st = false ∨ is_Some (macros st !! g) →
  preprocess (guarded g body) st = st.
Proof.
  intros Hflat Hskip. unfold guarded.
  rewrite preprocess_cons.
  assert (step (Ifndef g) st
          = {| macros := macros st; conds := false :: conds st;
               output := output st; diags := diags st |}) as ->.
  { simpl. f_equal. f_equal. destruct Hskip as [->|[b Hb]]; [done|].
    rewrite Hb. apply andb_false_r. }
  rewrite preprocess_cons, step_skipped by done.
  rewrite preprocess_app, (preprocess_skipped body) by done.
  by destruct st.
Qed.

(** A guarded file that is taken leaves its guard defined. *)
Lemma guarded_taken g body st :
  active st = true → macros st !! g = None →
  is_Some (macros (preprocess (guarded g body) st) !! g).
Proof.
  intros Hact Hg. unfold guarded.
  rewrite !preprocess_cons. apply preprocess_defined.
  simpl. rewrite Hact, Hg. simpl. rewrite lookup_insert_eq. eauto.
Qed.

(** Including a guarded file twice is including it once. *)
Lemma guarded_idempotent g body st :
  Forall (λ l, is_conditional l = false) body →
  preprocess (guarded g body) (preprocess (guarded g body) st)
  = preprocess (guarded g body) st.
Proof.
  intros Hflat.
  destruct (active st) eqn:Hact.
  - destruct (macros st !! g) as [b|] eqn:Hg.
    + rewrite !(guarded_skipped g body st); eauto.
    + apply guarded_skipped; [done|]. right. by apply guarded_taken.
  - rewrite !(guarded_skipped g body st); eauto.
Qed.

(** The header has that shape. *)
Lemma mql5_mock_h_guarded :
  mql5_mock_h = guarded "MQL5_MOCK_H" (guard_body mql5_mock_h)
  ∧ Forall (λ l, is_conditional l = false) (guard_body mql5_mock_h).
Proof. split; [reflexivity|]. repeat constructor. Qed.

Lemma include_header_idempotent st :
  include_header (include_header st) = include_header st.
Proof.
  unfold include_header. destruct mql5_mock_h_guarded as [-> Hflat].
  by apply guarded_idempotent.
Qed.

(** Once the guard is defined, the header leaves no trace wherever it is
    included again, whatever lines came in between. *)
Lemma include_header_again between st :
  is_Some (macros st !! "MQL5_MOCK_H") →
  include_header (preprocess between st) = preprocess between st.
Proof.
  intros Hg. unfold include_header.
  destruct mql5_mock_h_guarded as [-> Hflat].
  apply guarded_skipped; [done|]. right. by apply preprocess_defined.
Qed.

Lemma include_times_succ n st :
  include_times (S n) st = include_header (include_times n st).
Proof. unfold include_times. apply Nat.iter_succ. Qed.

Lemma include_times_S n st :
  include_times (S n) st = include_header st.
Proof.
  induction n as [|n IH]; [by rewrite include_times_succ|].
  rewrite include_times_succ, IH. apply include_header_idempotent.
Qed.

End PreprocessorFacts.

Section MacroFacts.

Import Header.

Implicit Types (st : pp_state) (t : token) (toks : list token)
  (ms : gmap string (list token)) (hide : gset string).

(** Rescanning ends before the fuel does: once the fuel exceeds the number
    of macros that are not hidden, more fuel changes nothing. *)
Lemma expand_tok_fuel ms fuel1 : ∀ fuel2 hide t,
  (size (dom ms ∖ hide) < fuel1)%nat → (size (dom ms ∖ hide) < fuel2)%nat →
  expand_tok fuel1 ms hide t = expand_tok fuel2 ms hide t.
Proof.
  induction fuel1 as [|fuel1 IH]; intros fuel2 hide t H1 H2; [lia|].
  destruct fuel2 as [|fuel2]; [lia|]. simpl.
  destruct (decide (t ∈ hide)) as [|Hhide]; [done|].
  destruct (ms !! t) as [body|] eqn:Ht; [|done].
  apply list_bind_ext; [|done]. intros t'.
  assert (size (dom ms ∖ ({[t]} ∪ hide)) < size (dom ms ∖ hide))%nat.
  { apply subset_size. split.
    - apply difference_mono_l, union_subseteq_r.
    - intros Hsub. assert (t ∈ dom ms ∖ hide) as Hin.
      { apply elem_of_difference. split; [|done]. apply elem_of_dom. eauto. }
      apply Hsub, elem_of_difference in Hin as [_ Hin].
      apply Hin, elem_of_union_l, elem_of_singleton. done. }
  apply IH; lia.
Qed.

Lemma expand_fuel ms fuel toks :
  (size ms < fuel)%nat → toks ≫= expand_tok fuel ms ∅ = expand ms toks.
Proof.
  intros Hfuel. apply list_bind_ext; [|done]. intros t.
  apply expand_tok_fuel; rewrite difference_empty_L, size_dom; lia.
Qed.

(** The macro table after the header, line by line. *)
Lemma header_macros_eq :
  header_macros
  = <["OP_SELL" := ["1"]]> (<["OP_BUY" := ["0"]]>
      (<["PERIOD_M1" := ["1"]]> (<["PERIOD_CURRENT" := ["0"]]>
        (<["extern" := []]> (<["sinput" := ["static"]]>
          (<["input" := []]> (<["MQL5_MOCK_H" := []]> ∅))))))).
Proof. apply map_eq. intros t. vm_compute. reflexivity. Qed.

Lemma storage_macros_eq :
  storage_macros
  = <["extern" := []]> (<["sinput" := ["static"]]> (<["input" := []]> ∅)).
Proof. apply map_eq. intros t. vm_compute. reflexivity. Qed.

(** The constants of [Stubs] are the values of the macros. *)
Lemma macro_values :
  macro_value "PERIOD_CURRENT" = Some Stubs.PERIOD_CURRENT
  ∧ macro_value "PERIOD_M1" = Some Stubs.PERIOD_M1
  ∧ macro_value "OP_BUY" = Some Stubs.OP_BUY
  ∧ macro_value "OP_SELL" = Some Stubs.OP_SELL.
Proof. repeat split; vm_compute; reflexivity. Qed.

(** A name without a definition stays. *)
Lemma expand_tok_undefined fuel ms hide t :
  ms !! t = None → expand_tok fuel ms hide t = [t].
Proof.
  intros Ht. destruct fuel as [|fuel]; [done|].
  cbn [expand_tok]. case_decide; [done|]. by rewrite Ht.
Qed.

(** With the keyword macros alone, a token is replaced as the
    specification words it. *)
Lemma expand_tok_storage t :
  expand_tok (S (size storage_macros)) storage_macros ∅ t = neutralize_tok t.
Proof.
  unfold neutralize_tok.
  destruct (decide (t = "input")) as [->|Hinput]; [by vm_compute|].
  destruct (decide (t = "extern")) as [->|Hextern]; [by vm_compute|].
  destruct (decide (t = "sinput")) as [->|Hsinput]; [by vm_compute|].
  apply expand_tok_undefined.
  by rewrite storage_macros_eq, !lookup_insert_ne, lookup_empty.
Qed.


Lemma expand_storage toks : expand storage_macros toks = neutralize toks.
Proof.
  unfold expand, neutralize. apply list_bind_ext; [|done].
  apply expand_tok_storage.
Qed.






End MacroFacts.

Section HeaderClaims.

Import Header.

(** Without the guard, a second inclusion gives every line a second
    time: the guard is what the idempotence rests on. *)
Lemma unguarded_twice_duplicates :
  let body := guard_body mql5_mock_h in
  output (preprocess (body ++ body) pp_init)
  = output (preprocess body pp_init) ++ output (preprocess body pp_init)
  ∧ ¬ NoDup (output (preprocess (body ++ body) pp_init)).
Proof.
  split; [by vm_compute|].
  intros Hdup. apply (bool_decide_pack _) in Hdup. by vm_compute in Hdup.
Qed.

(** C8: the header declares two aliases, [datetime] for [int64_t] and
    [color] for [uint32_t]; [datetime] is a signed integer type of 64 bits
    and [color] an unsigned integer type of 32 bits. *)
Theorem aliases_fixed_width :
  typedefs (output (include_header pp_init))
  = [("datetime", "int64_t"); ("color", "uint32_t")]
  ∧ resolve "datetime" = Some (IntT true 64)
  ∧ resolve "color" = Some (IntT false 32).
Proof. repeat split; vm_compute; reflexivity. Qed.


Section KeywordMacros.

(** The names that are macros for a reason outside the lines of the
    header: those the implementation predefines and those [<cstdint>] and
    [<string>] define.  The two system headers are not part of the
    repository and [step] does not look into them, so what a text that
    names one of these comes out as is left open. *)
Variable outside_macros : gset string.


End KeywordMacros.

(** C10: at any point of a translation unit, including the header once
    more, any number of times, gives the state one inclusion gives; a
    later inclusion, after any lines, adds nothing to a translation unit
    that starts with one; and in a translation unit that starts with the
    inclusions nothing is redefined, no line of the header comes out
    twice, and no conditional is left open. *)
Theorem include_guard_idempotent (n : nat) (st : pp_state)
    (between : list line) :
  include_times (S n) st = include_header st
  ∧ include_header (preprocess between (include_header pp_init))
    = preprocess between (include_header pp_init)
  ∧ diags (include_times (S n) pp_init) = []
  ∧ NoDup (output (include_times (S n) pp_init))
  ∧ conds (include_times (S n) pp_init) = [].
Proof.
  rewrite !include_times_S. split; [done|].
  split; [apply include_header_again; exists []; by vm_compute|].
  split; [by vm_compute|]. split; [|by vm_compute].
  apply (bool_decide_unpack _). by vm_compute.
Qed.

End HeaderClaims.

(** * The header in a translation unit that is not empty *)

Section HeaderInContext.

Import Header.

Implicit Types (st : pp_state) (l : line) (ls body : list line)
  (g n t : token) (b toks : list token) (ms : gmap string (list token)).

Local Abbreviation flat body :=
  (Forall (λ l, is_conditional l = false) body).

(** A text that names no macro comes out as it is. *)
Lemma expand_undefined ms toks :
  Forall (λ t, ms !! t = None) toks → expand ms toks = toks.
Proof.
  intros Hundef. unfold expand.
  induction Hundef as [|t toks Ht _ IH]; [done|].
  by rewrite bind_cons, IH, expand_tok_undefined.
Qed.

Lemma step_active l st :
  is_conditional l = false → active (step l st) = active st.
Proof. intros Hl. unfold active. by rewrite step_conds. Qed.

(** The diagnostics only grow. *)
Lemma step_diags l st : ∃ ds, diags (step l st) = diags st ++ ds.
Proof.
  destruct l as [n|n b|h| |toks]; simpl.
  - exists []. by rewrite app_nil_r.
  - destruct (active st); simpl; [|exists []; by rewrite app_nil_r].
    destruct (macros st !! n) as [old|]; [|exists []; by rewrite app_nil_r].
    destruct (decide (old = b)); [exists []; by rewrite app_nil_r|eauto].
  - destruct (active st); exists []; by rewrite app_nil_r.
  - destruct (conds st); simpl; [eauto|exists []; by rewrite app_nil_r].
  - destruct (active st); exists []; by rewrite app_nil_r.
Qed.

Lemma preprocess_diags ls st :
  ∃ ds, diags (preprocess ls st) = diags st ++ ds.
Proof.
  revert st. induction ls as [|l ls IH]; intros st.
  - exists []. by rewrite app_nil_r.
  - rewrite preprocess_cons.
    destruct (step_diags l st) as [ds1 H1], (IH (step l st)) as [ds2 H2].
    exists (ds1 ++ ds2). by rewrite H2, H1, app_assoc.
Qed.

(** The macros after lines without conditionals, in a group that is kept. *)
Lemma flat_macros body : ∀ st,
  active st = true → flat body →
  macros (preprocess body st) = install (defines body) (macros st).
Proof.
  induction body as [|l body IH]; intros st Hact Hflat; [done|].
  apply Forall_cons in Hflat as [Hl Hflat].
  rewrite preprocess_cons, IH by (by rewrite ?step_active).
  destruct l; try done; simpl; by rewrite Hact.
Qed.

(** No diagnostic when each name defined is new or has the replacement
    list it had. *)
Lemma flat_no_conflict body : ∀ st,
  active st = true → flat body → NoDup (defines body).*1 →
  (∀ n b, (n, b) ∈ defines body →
     macros st !! n = None ∨ macros st !! n = Some b) →
  diags (preprocess body st) = diags st.
Proof.
  induction body as [|l body IH]; intros st Hact Hflat Hnames Hcompat; [done|].
  apply Forall_cons in Hflat as [Hl Hflat]. rewrite preprocess_cons.
  destruct l as [?|n b|h| |toks]; try done.
  - cbn in Hnames. apply NoDup_cons in Hnames as [Hn Hnames].
    rewrite IH; [| |done|done|].
    + simpl. rewrite Hact. simpl.
      destruct (Hcompat n b) as [->| ->]; [by left|done|].
      by rewrite decide_True.
    + by rewrite step_active.
    + intros n' b' Hin. simpl. rewrite Hact. simpl.
      rewrite lookup_insert_ne.
      * apply Hcompat. by right.
      * intros <-. apply Hn, list_elem_of_fmap. by exists (n, b').
  - rewrite IH; [| |done|done|].
    + simpl. by rewrite Hact.
    + by rewrite step_active.
    + intros n b Hin. simpl. rewrite Hact. by apply Hcompat.
  - rewrite IH; [| |done|done|].
    + simpl. by rewrite Hact.
    + by rewrite step_active.
    + intros n b Hin. simpl. rewrite Hact. by apply Hcompat.
Qed.

(** A diagnostic when a name defined had another replacement list. *)
Lemma flat_conflict body n b : ∀ st b',
  active st = true → flat body → Define n b ∈ body →
  macros st !! n = Some b' → b' ≠ b →
  ∃ ds, diags (preprocess body st) = diags st ++ ds ∧ Redefined n ∈ ds.
Proof.
  induction body as [|l body IH]; intros st b' Hact Hflat Hin Hn Hne.
  { by apply elem_of_nil in Hin. }
  apply Forall_cons in Hflat as [Hl Hflat]. rewrite preprocess_cons.
  destruct (decide (l = Define n b)) as [->|Hl'].
  - destruct (preprocess_diags body (step (Define n b) st)) as [ds Hds].
    exists (Redefined n :: ds). split; [|by left].
    rewrite Hds. simpl. rewrite Hact. simpl. rewrite Hn.
    rewrite decide_False by done. by rewrite <- app_assoc.
  - apply elem_of_cons in Hin as [Hin|Hin]; [done|].
    destruct (step_diags l st) as [ds1 H1].
    assert (∃ b'', macros (step l st) !! n = Some b'' ∧
             (b'' ≠ b ∨ Redefined n ∈ ds1)) as (b'' & Hn' & Hcase).
    { destruct l as [?|m x|h| |toks]; try done; simpl in *;
        rewrite Hact in *; simpl in *; [|by eauto|by eauto].
      destruct (decide (m = n)) as [->|Hm].
      - rewrite lookup_insert_eq. exists x. split; [done|].
        rewrite Hn in H1. destruct (decide (b' = x)) as [->|Hx]; [by left|].
        right. apply app_inv_head in H1 as <-. by left.
      - rewrite lookup_insert_ne by done. eauto. }
    destruct Hcase as [Hne'|Hds1].
    + destruct (IH (step l st) b'') as (ds2 & H2 & Hin2);
        [by rewrite step_active|done..|].
      exists (ds1 ++ ds2). rewrite H2, H1, app_assoc. split; [done|].
      apply elem_of_app. by right.
    + destruct (preprocess_diags body (step l st)) as [ds2 H2].
      exists (ds1 ++ ds2). rewrite H2, H1, app_assoc. split; [done|].
      apply elem_of_app. by left.
Qed.

(** The lines that come out, when no macro is named by the text. *)
Lemma flat_output body : ∀ st,
  active st = true → flat body →
  (∀ t, t ∈ text_tokens body → macros st !! t = None) →
  (∀ n, n ∈ (defines body).*1 → n ∉ text_tokens body) →
  output (preprocess body st) = output st ++ items body.
Proof.
  induction body as [|l body IH]; intros st Hact Hflat Hundef Hnames.
  { by rewrite app_nil_r. }
  apply Forall_cons in Hflat as [Hl Hflat]. rewrite preprocess_cons.
  unfold text_tokens in Hundef, Hnames. rewrite bind_cons in Hundef, Hnames.
  destruct l as [?|n b|h| |toks]; try done.
  - cbn in Hnames. rewrite IH; [| |done| |].
    + simpl. by rewrite Hact.
    + by rewrite step_active.
    + intros t Ht. simpl. rewrite Hact. simpl.
      rewrite lookup_insert_ne; [by apply Hundef|].
      intros <-. by apply (Hnames n); [left|].
    + intros n' Hn'. apply Hnames. by right.
  - rewrite IH; [| |done| |done].
    + simpl. rewrite Hact. simpl. by rewrite <- app_assoc.
    + by rewrite step_active.
    + intros t Ht. simpl. rewrite Hact. by apply Hundef.
  - assert (expand (macros st) toks = toks) as Htoks.
    { apply expand_undefined, Forall_forall. intros t Ht.
      apply Hundef, elem_of_app. by left. }
    rewrite IH; [| |done| |].
    + simpl. rewrite Hact. simpl. by rewrite Htoks, <- app_assoc.
    + by rewrite step_active.
    + intros t Ht. simpl. rewrite Hact. apply Hundef, elem_of_app. by right.
    + intros n Hn. specialize (Hnames n Hn).
      by apply not_elem_of_app in Hnames as [_ ?].
Qed.

(** A guarded file that is taken: the guard is defined, the body is run
    in a group of its own, and the group is closed. *)
Lemma guarded_taken_eq g body st :
  flat body → active st = true → macros st !! g = None →
  ∃ st1, active st1 = true ∧ macros st1 = macros st
    ∧ output st1 = output st ∧ diags st1 = diags st
    ∧ macros (preprocess (guarded g body) st)
      = macros (preprocess (Define g [] :: body) st1)
    ∧ output (preprocess (guarded g body) st)
      = output (preprocess (Define g [] :: body) st1)
    ∧ diags (preprocess (guarded g body) st)
      = diags (preprocess (Define g [] :: body) st1)
    ∧ conds (preprocess (guarded g body) st) = conds st.
Proof.
  intros Hflat Hact Hg. exists (step (Ifndef g) st).
  assert (conds (step (Ifndef g) st) = true :: conds st) as Hconds.
  { simpl. by rewrite Hact, Hg. }
  split; [unfold active; by rewrite Hconds|]. do 3 (split; [done|]).
  change (guarded g body) with (Ifndef g :: (Define g [] :: body) ++ [Endif]).
  rewrite preprocess_cons, preprocess_app.
  set (st2 := preprocess (Define g [] :: body) (step (Ifndef g) st)).
  assert (conds st2 = true :: conds st) as Hconds2.
  { unfold st2. rewrite preprocess_conds; [done|]. by constructor. }
  unfold preprocess at 1 2 3 4. simpl. by rewrite Hconds2.
Qed.

Lemma defines_guarded g body :
  defines (guarded g body) = (g, []) :: defines body.
Proof.
  unfold guarded, defines. simpl. rewrite omap_app. simpl.
  by rewrite app_nil_r.
Qed.

Lemma items_guarded g body : items (guarded g body) = items body.
Proof.
  unfold guarded, items. simpl. rewrite omap_app. simpl.
  by rewrite app_nil_r.
Qed.

Lemma text_tokens_guarded g body :
  text_tokens (guarded g body) = text_tokens body.
Proof.
  unfold guarded, text_tokens. rewrite !bind_cons, bind_app. simpl.
  by rewrite app_nil_r.
Qed.

(** The facts about the header's own lines that the theorems below rest
    on: its macro names are pairwise distinct, and none of them is a token
    of its text lines. *)
Lemma mql5_mock_h_names :
  NoDup (defines mql5_mock_h).*1
  ∧ Forall (λ n, n ∉ text_tokens mql5_mock_h) (defines mql5_mock_h).*1.
Proof.
  split.
  - apply (bool_decide_unpack _). by vm_compute.
  - apply (bool_decide_unpack _). by vm_compute.
Qed.

(** Lines without an inclusion meet none. *)
Lemma macros_before_line ls : ∀ st l ms,
  (l, ms) ∈ macros_before ls st → l ∈ ls.
Proof.
  induction ls as [|l' ls IH]; intros st l ms Hin; simpl in Hin.
  { by apply elem_of_nil in Hin. }
  apply elem_of_cons in Hin as [[= -> _]|Hin]; [by left|].
  right. by eapply IH.
Qed.

End HeaderInContext.

Section HeaderExtras.

Import Header.

Implicit Types (st : pp_state) (n t : token) (b toks : list token).

Local Abbreviation guard := "MQL5_MOCK_H" (only parsing).

Lemma expand_tok_header_closed t :
  Forall (λ t', header_macros !! t' = None)
    (expand_tok (S (size header_macros)) header_macros ∅ t).
Proof.
  destruct (header_macros !! t) as [b|] eqn:Ht.
  - rewrite header_macros_eq in Ht.
    repeat (apply lookup_insert_Some in Ht as [[<- _]|[_ Ht]];
            [apply (bool_decide_unpack _); by vm_compute|]).
    by rewrite lookup_empty in Ht.
  - rewrite expand_tok_undefined by done. by constructor.
Qed.

(** X1: whatever the text after the header is, no token of what comes out
    is a macro of the header, so preprocessing it again changes nothing. *)
Theorem header_macros_closed toks :
  Forall (λ t, header_macros !! t = None) (expand header_macros toks)
  ∧ expand header_macros (expand header_macros toks)
    = expand header_macros toks.
Proof.
  assert (Forall (λ t, header_macros !! t = None)
            (expand header_macros toks)) as Hclosed.
  { unfold expand. apply Forall_bind, Forall_forall. intros t _.
    apply expand_tok_header_closed. }
  split; [done|]. by apply expand_undefined.
Qed.

(** X2: where the guard is already defined, or inside a group that is
    being skipped, including the header changes nothing at all. *)
Theorem include_header_skipped st :
  active st = false ∨ is_Some (macros st !! guard) → include_header st = st.
Proof.
  intros Hskip. unfold include_header.
  destruct mql5_mock_h_guarded as [-> Hflat]. by apply guarded_skipped.
Qed.

(** A definition made and not made again stays as it was made. *)
Lemma install_lookup_notin (ds : list (token * list token)) : ∀ ms n,
  n ∉ ds.*1 → install ds ms !! n = ms !! n.
Proof.
  induction ds as [|[n' b'] ds IH]; intros ms n Hn; [done|].
  cbn in Hn. apply not_elem_of_cons in Hn as [Hne Hn].
  unfold install. simpl. fold (install ds (<[n' := b']> ms)).
  by rewrite IH, lookup_insert_ne.
Qed.

Lemma install_lookup (ds : list (token * list token)) : ∀ ms n b,
  NoDup ds.*1 → (n, b) ∈ ds → install ds ms !! n = Some b.
Proof.
  induction ds as [|[n' b'] ds IH]; intros ms n b Hnames Hin.
  { by apply elem_of_nil in Hin. }
  cbn in Hnames. apply NoDup_cons in Hnames as [Hn' Hnames].
  unfold install. simpl. fold (install ds (<[n' := b']> ms)).
  apply elem_of_cons in Hin as [[= -> ->]|Hin].
  - by rewrite install_lookup_notin, lookup_insert_eq.
  - by apply IH.
Qed.

(** X3: where the header is taken and each of its macro names is either
    new or already has the replacement list the header gives it, the
    inclusion raises no redefinition diagnostic for any of these names,
    leaves the conditionals as they were, and each of the names ends with
    the replacement list the header gives it. *)
Theorem include_header_compatible st :
  active st = true → macros st !! guard = None →
  Forall (λ d, macros st !! d.1 = None ∨ macros st !! d.1 = Some d.2)
    (defines mql5_mock_h) →
  (∃ ds, diags (include_header st) = diags st ++ ds
         ∧ Forall (λ d, Redefined d.1 ∉ ds) (defines mql5_mock_h))
  ∧ Forall (λ d, macros (include_header st) !! d.1 = Some d.2)
      (defines mql5_mock_h)
  ∧ conds (include_header st) = conds st.
Proof.
  intros Hact Hg Hcompat. destruct mql5_mock_h_names as [Hnames _].
  unfold include_header. destruct mql5_mock_h_guarded as [Heq Hflat].
  remember (guard_body mql5_mock_h) as body eqn:Hbody. clear Hbody.
  rewrite Heq in *. clear Heq.
  rewrite defines_guarded in *.
  destruct (guarded_taken_eq guard body st)
    as (st1 & Hact1 & Hms1 & _ & Hds1 & -> & _ & -> & ->); [done..|].
  assert (Forall (λ l, is_conditional l = false) (Define guard [] :: body))
    as Hflat' by by constructor.
  split; [|split; [|done]].
  - exists []. rewrite app_nil_r. split.
    + rewrite flat_no_conflict, Hds1; [done..|].
      intros n b Hin. rewrite Hms1.
      by apply (proj1 (Forall_forall _ _) Hcompat (n, b)).
    + apply Forall_forall. intros d _. apply not_elem_of_nil.
  - rewrite flat_macros by done. apply Forall_forall. intros [n b] Hin.
    by apply install_lookup.
Qed.

(** X4: where the header is taken and one of its macro names already has
    another replacement list, the inclusion raises a redefinition
    diagnostic for that name. *)
Theorem include_header_conflict st n b b' :
  active st = true → macros st !! guard = None →
  (n, b) ∈ defines mql5_mock_h → macros st !! n = Some b' → b' ≠ b →
  ∃ ds, diags (include_header st) = diags st ++ ds ∧ Redefined n ∈ ds.
Proof.
  intros Hact Hg Hin Hn Hne.
  unfold include_header. destruct mql5_mock_h_guarded as [Heq Hflat].
  remember (guard_body mql5_mock_h) as body eqn:Hbody. clear Hbody.
  rewrite Heq in *. clear Heq.
  destruct (guarded_taken_eq guard body st)
    as (st1 & Hact1 & Hms1 & _ & Hds1 & _ & _ & -> & _); [done..|].
  rewrite <- Hds1. apply (flat_conflict _ n b st1 b'); try done.
  - by constructor.
  - apply list_elem_of_omap in Hin as (l & Hl & Hdef).
    destruct l; try done. injection Hdef as -> ->.
    unfold guarded in Hl. apply elem_of_cons in Hl as [|Hl]; [done|].
    apply elem_of_cons in Hl as [->|Hl]; [by left|]. right.
    apply elem_of_app in Hl as [|Hl]; [done|].
    by apply list_elem_of_singleton in Hl.
  - by rewrite Hms1.
Qed.

(** Of the lines of the header, only the definition of the guard comes
    before the two inclusions. *)
Lemma macros_before_include st h ms :
  active st = true → macros st !! guard = None →
  (Include h, ms) ∈ macros_before mql5_mock_h st →
  ms = <[guard := []]> (macros st).
Proof.
  intros Hact Hg Hin.
  change mql5_mock_h
    with (Ifndef guard :: Define guard [] :: Include "cstdint"
          :: Include "string" :: drop 4 mql5_mock_h) in Hin.
  cbn [macros_before] in Hin.
  assert (step (Define guard []) (step (Ifndef guard) st)
          = {| macros := <[guard := []]> (macros st);
               conds := true :: conds st;
               output := output st; diags := diags st |}) as Hst.
  { simpl. rewrite Hact, Hg. simpl. unfold define. simpl. by rewrite Hg. }
  rewrite Hst in Hin. clear Hst.
  apply elem_of_cons in Hin as [[=]|Hin].
  apply elem_of_cons in Hin as [[=]|Hin].
  apply elem_of_cons in Hin as [[= _ ->]|Hin]; [done|].
  apply elem_of_cons in Hin as [[= _ ->]|Hin]; [done|].
  apply macros_before_line in Hin.
  assert (Forall (λ l, ∀ h', l ≠ Include h') (drop 4 mql5_mock_h)) as Hrest
    by (repeat constructor; done).
  by destruct (proj1 (Forall_forall _ _) Hrest _ Hin h).
Qed.

(** X5: the two system headers are included with the guard defined and
    before the header defines any other macro: for each of the seven
    other names, the table an inclusion is met with has what the
    translation unit had before the header. *)
Theorem includes_before_macros st h ms :
  active st = true → macros st !! guard = None →
  (Include h, ms) ∈ macros_before mql5_mock_h st →
  ms !! guard = Some []
  ∧ Forall (λ n, ms !! n = macros st !! n)
      (defines (guard_body mql5_mock_h)).*1.
Proof.
  intros Hact Hg Hin.
  rewrite (macros_before_include st h ms Hact Hg Hin).
  split; [apply lookup_insert_eq|].
  destruct mql5_mock_h_names as [Hnames _].
  destruct mql5_mock_h_guarded as [Heq _].
  remember (guard_body mql5_mock_h) as body eqn:Hbody. clear Hbody.
  rewrite Heq, defines_guarded in Hnames. cbn in Hnames.
  apply NoDup_cons in Hnames as [Hguard _].
  apply Forall_forall. intros n Hn. apply lookup_insert_ne.
  by intros <-.
Qed.

(** X6: where the header is taken and no token of its text lines is a
    macro of the translation unit, what the inclusion hands to the
    compiler is its two inclusions and its text lines, in order and as
    they are written; the macros the header defines change none of its
    own lines. *)
Theorem include_header_verbatim st :
  active st = true → macros st !! guard = None →
  Forall (λ t, macros st !! t = None) (text_tokens mql5_mock_h) →
  output (include_header st) = output st ++ items mql5_mock_h.
Proof.
  intros Hact Hg Hundef. destruct mql5_mock_h_names as [_ Hnames].
  unfold include_header. destruct mql5_mock_h_guarded as [Heq Hflat].
  remember (guard_body mql5_mock_h) as body eqn:Hbody. clear Hbody.
  rewrite Heq in *. clear Heq.
  rewrite defines_guarded in Hnames.
  rewrite text_tokens_guarded in Hundef, Hnames. rewrite items_guarded.
  destruct (guarded_taken_eq guard body st)
    as (st1 & Hact1 & Hms1 & Hout1 & _ & _ & -> & _ & _); [done..|].
  rewrite <- Hout1.
  change (items body) with (items (Define guard [] :: body)).
  apply flat_output; [done|by constructor| |].
  - intros t Ht. rewrite Hms1.
    by apply (proj1 (Forall_forall _ _) Hundef).
  - intros n Hn. by apply (proj1 (Forall_forall _ _) Hnames).
Qed.

End HeaderExtras.

(** ** Instances *)

(** A translation unit that has already defined the guard, with a value
    of its own, and has a line of output. *)
Lemma include_header_skipped_witness :
  let st := {| Header.macros := {[ "MQL5_MOCK_H" := ["1"] ]};
               Header.conds := [];
               Header.output := [Header.Line ["int"; "x"; ";"]];
               Header.diags := [] |} in
  (Header.active st = false
   ∨ is_Some (Header.macros st !! "MQL5_MOCK_H"))
  ∧ Header.include_header st = st.
Proof.
  intros st.
  assert (Header.active st = false
          ∨ is_Some (Header.macros st !! "MQL5_MOCK_H")) as Hskip.
  { right. exists ["1"]. vm_compute. reflexivity. }
  split; [exact Hskip | exact (include_header_skipped st Hskip)].
Defined.

(** A translation unit that already defines [sinput] as the header does,
    and a macro of its own. *)
Lemma include_header_compatible_witness :
  let st := {| Header.macros := {[ "sinput" := ["static"]; "DEBUG" := ["1"] ]};
               Header.conds := []; Header.output := [];
               Header.diags := [] |} in
  (Header.active st = true
   ∧ Header.macros st !! "MQL5_MOCK_H" = None
   ∧ Forall (λ d, Header.macros st !! d.1 = None
                  ∨ Header.macros st !! d.1 = Some d.2)
       (Header.defines Header.mql5_mock_h))
  ∧ (∃ ds, Header.diags (Header.include_header st) = Header.diags st ++ ds
           ∧ Forall (λ d, Header.Redefined d.1 ∉ ds)
               (Header.defines Header.mql5_mock_h))
  ∧ Forall (λ d, Header.macros (Header.include_header st) !! d.1 = Some d.2)
      (Header.defines Header.mql5_mock_h)
  ∧ Header.conds (Header.include_header st) = Header.conds st.
Proof.
  intros st.
  assert (Header.active st = true) as Hact by reflexivity.
  assert (Header.macros st !! "MQL5_MOCK_H" = None) as Hg
    by (vm_compute; reflexivity).
  assert (Forall (λ d, Header.macros st !! d.1 = None
                       ∨ Header.macros st !! d.1 = Some d.2)
            (Header.defines Header.mql5_mock_h)) as Hcompat
    by (apply (bool_decide_unpack _); vm_compute; exact I).
  split; [auto | exact (include_header_compatible st Hact Hg Hcompat)].
Defined.

(** A translation unit that uses [input] as a macro of its own. *)
Lemma include_header_conflict_witness :
  let st := {| Header.macros := {[ "input" := ["int"] ]};
               Header.conds := []; Header.output := [];
               Header.diags := [] |} in
  (Header.active st = true
   ∧ Header.macros st !! "MQL5_MOCK_H" = None
   ∧ ("input", []) ∈ Header.defines Header.mql5_mock_h
   ∧ Header.macros st !! "input" = Some ["int"]
   ∧ ["int"] ≠ ([] : list string))
  ∧ ∃ ds, Header.diags (Header.include_header st) = Header.diags st ++ ds
          ∧ Header.Redefined "input" ∈ ds.
Proof.
  intros st.
  assert (Header.active st = true) as Hact by reflexivity.
  assert (Header.macros st !! "MQL5_MOCK_H" = None) as Hg
    by (vm_compute; reflexivity).
  assert (("input", []) ∈ Header.defines Header.mql5_mock_h) as Hin
    by (apply (bool_decide_unpack _); vm_compute; exact I).
  assert (Header.macros st !! "input" = Some ["int"]) as Hn
    by (vm_compute; reflexivity).
  assert (["int"] ≠ ([] : list string)) as Hne by discriminate.
  split; [auto 6 |].
  exact (include_header_conflict st "input" [] ["int"] Hact Hg Hin Hn Hne).
Defined.

(** The inclusion of [<string>] in a translation unit that starts with
    the header. *)
Lemma includes_before_macros_witness :
  let ms : gmap string (list string) := <["MQL5_MOCK_H" := []]> ∅ in
  (Header.active Header.pp_init = true
   ∧ Header.macros Header.pp_init !! "MQL5_MOCK_H" = None
   ∧ (Header.Include "string", ms)
     ∈ Header.macros_before Header.mql5_mock_h Header.pp_init)
  ∧ ms !! "MQL5_MOCK_H" = Some []
  ∧ Forall (λ n, ms !! n = Header.macros Header.pp_init !! n)
      (Header.defines (Header.guard_body Header.mql5_mock_h)).*1.
Proof.
  intros ms.
  assert (Header.active Header.pp_init = true) as Hact by reflexivity.
  assert (Header.macros Header.pp_init !! "MQL5_MOCK_H" = None) as Hg
    by (vm_compute; reflexivity).
  assert ((Header.Include "string", ms)
          ∈ Header.macros_before Header.mql5_mock_h Header.pp_init) as Hin
    by (apply (bool_decide_unpack _); vm_compute; exact I).
  split; [auto |].
  exact (includes_before_macros Header.pp_init "string" ms Hact Hg Hin).
Defined.

(** A translation unit with a macro of its own and a line of output
    before the inclusion. *)
Lemma include_header_verbatim_witness :
  let st := {| Header.macros := {[ "DEBUG" := ["1"] ]};
               Header.conds := [];
               Header.output := [Header.Line ["int"; "x"; ";"]];
               Header.diags := [] |} in
  (Header.active st = true
   ∧ Header.macros st !! "MQL5_MOCK_H" = None
   ∧ Forall (λ t, Header.macros st !! t = None)
       (Header.text_tokens Header.mql5_mock_h))
  ∧ Header.output (Header.include_header st)
    = Header.output st ++ Header.items Header.mql5_mock_h.
Proof.
  intros st.
  assert (Header.active st = true) as Hact by reflexivity.
  assert (Header.macros st !! "MQL5_MOCK_H" = None) as Hg
    by (vm_compute; reflexivity).
  assert (Forall (λ t, Header.macros st !! t = None)
            (Header.text_tokens Header.mql5_mock_h)) as Hundef
    by (apply (bool_decide_unpack _); vm_compute; exact I).
  split; [auto | exact (include_header_verbatim st Hact Hg Hundef)].
Defined.

